(** * CostRank: the rank-based segment cost of [ruptures/costs/costrank.py]

    A shallow embedding of the class [CostRank] (its constructor, [fit] and
    [error]) together with the numpy primitives the two methods call.

    Numeric model.  numpy's [float64] values are modelled by exact rational
    numbers extended with the IEEE-754 special values [+inf], [-inf] and
    [nan]; every finite result is kept in lowest terms so that equal values
    are syntactically equal.  Rounding and overflow are not modelled.  The
    integers of numpy's integer arrays are modelled by [Z]. *)

From Stdlib Require Import ZArith QArith Qabs List Bool Lia Permutation Sorted.
Import ListNotations.

Set Implicit Arguments.

(* ================================================================== *)
(** ** float64 as extended rationals *)

Module F64.

Inductive float : Type :=
| Fin (q : Q)
| PInf
| NInf
| NaN.

Definition zero : float := Fin 0.
Definition one : float := Fin 1.
(** The Python literal [1 / 2]. *)
Definition half : float := Fin (1 # 2).

Definition of_Z (z : Z) : float := Fin (inject_Z z).

Definition is_finite (x : float) : bool :=
  match x with Fin _ => true | _ => false end.

(** [x == 0.0] in IEEE arithmetic: false on [nan] and on the infinities. *)
Definition is_zero (x : float) : bool :=
  match x with Fin q => Qeq_bool q 0 | _ => false end.

(** Sign of a rational as a comparison with zero. *)
Definition Qsign (q : Q) : comparison := (Qnum q ?= 0)%Z.

Definition signed_inf (c : comparison) : float :=
  match c with Lt => NInf | Gt => PInf | Eq => NaN end.

Definition opp (x : float) : float :=
  match x with
  | Fin q => Fin (Qred (- q))
  | PInf => NInf
  | NInf => PInf
  | NaN => NaN
  end.

Definition add (x y : float) : float :=
  match x, y with
  | NaN, _ | _, NaN => NaN
  | Fin a, Fin b => Fin (Qred (a + b))
  | PInf, NInf | NInf, PInf => NaN
  | PInf, _ | _, PInf => PInf
  | NInf, _ | _, NInf => NInf
  end.

Definition sub (x y : float) : float := add x (opp y).

(** Sign of a value; [None] for [nan]. *)
Definition sign (x : float) : option comparison :=
  match x with
  | Fin q => Some (Qsign q)
  | PInf => Some Gt
  | NInf => Some Lt
  | NaN => None
  end.

Definition sign_mul (a b : comparison) : comparison :=
  match a, b with
  | Eq, _ | _, Eq => Eq
  | Lt, Lt | Gt, Gt => Gt
  | _, _ => Lt
  end.

Definition mul (x y : float) : float :=
  match x, y with
  | Fin a, Fin b => Fin (Qred (a * b))
  | _, _ =>
      match sign x, sign y with
      | Some a, Some b => signed_inf (sign_mul a b)   (* 0 * inf = nan *)
      | _, _ => NaN
      end
  end.

(** IEEE division; the zero divisor is the positive zero ([0.0], or an
    integer converted to float), so [x / 0] takes the sign of [x]. *)
Definition div (x y : float) : float :=
  match x, y with
  | NaN, _ | _, NaN => NaN
  | Fin a, Fin b =>
      if Qeq_bool b 0 then signed_inf (Qsign a) else Fin (Qred (a / b))
  | Fin _, _ => zero
  | _, Fin b =>
      match sign x with
      | Some a => signed_inf (sign_mul a (match Qsign b with Eq => Gt | c => c end))
      | None => NaN
      end
  | _, _ => NaN
  end.

Definition abs (x : float) : float :=
  match x with
  | Fin q => Fin (Qred (Qabs q))
  | PInf | NInf => PInf
  | NaN => NaN
  end.

(** [x < y]; false as soon as one side is [nan]. *)
Definition ltb (x y : float) : bool :=
  match x, y with
  | NaN, _ | _, NaN => false
  | Fin a, Fin b => negb (Qle_bool b a)
  | NInf, NInf | PInf, _ | _, NInf => false
  | NInf, _ | _, PInf => true
  end.

(** [float -> int64] conversion ([astype(int)]): truncation toward zero.
    On [nan] and the infinities the C cast yields the smallest int64. *)
Definition to_int (x : float) : Z :=
  match x with
  | Fin q => Z.quot (Qnum q) (Z.pos (Qden q))
  | _ => (- 2 ^ 63)%Z
  end.

Definition sum (l : list float) : float := fold_left add l zero.

End F64.

Import F64.

(* ================================================================== *)
(** ** numpy arrays and the primitives used by [CostRank] *)

Module Np.

(** A two-dimensional array of shape [(length rows, ncols)].  The number of
    columns is stored so that the shapes [(0, d)] are told apart. *)
Record array2 (A : Type) : Type := mk2 { ncols : nat; rows : list (list A) }.

Definition nrows {A} (a : array2 A) : nat := length (rows a).

(** Elementwise operation (broadcast of a scalar function). *)
Definition amap {A B} (f : A -> B) (a : array2 A) : array2 B :=
  mk2 (ncols a) (map (map f) (rows a)).

Definition full {A} (n d : nat) (x : A) : array2 A :=
  mk2 d (repeat (repeat x d) n).

Definition column {A} (dflt : A) (a : array2 A) (j : nat) : list A :=
  map (fun r => nth j r dflt) (rows a).

(** [a.T] *)
Definition transpose {A} (dflt : A) (a : array2 A) : array2 A :=
  mk2 (nrows a) (map (column dflt a) (seq 0 (ncols a))).

(** [v.reshape(-1, 1)] on a one-dimensional array. *)
Definition reshape_column {A} (v : list A) : array2 A :=
  mk2 1 (map (fun x => [x]) v).

(** The result of [np.cov]: [squeeze] turns a 1 x 1 result into a
    zero-dimensional array. *)
Inductive ndarray : Type :=
| Scalar (x : float)
| Matrix (a : array2 float).

Inductive exn : Type :=
| NotEnoughPoints
| TypeError        (* subscripting [None] *)
| LinAlgError      (* numpy.linalg: not a square 2-D array, or singular *)
| ValueError.      (* matmul: mismatch in the core dimension *)

Inductive result (A : Type) : Type :=
| Ok (a : A)
| Err (e : exn).
Arguments Ok {A} a.
Arguments Err {A} e.

(** *** argsort *)

(** Insertion of a (value, index) pair in front of the first pair whose
    value is not smaller.  numpy's default sort promises no order among
    equal values; the model keeps them in their original order, as numpy's
    insertion sort does on short arrays. *)
Fixpoint insert (p : Q * nat) (l : list (Q * nat)) : list (Q * nat) :=
  match l with
  | [] => [p]
  | h :: t => if Qle_bool (fst p) (fst h) then p :: h :: t else h :: insert p t
  end.

Definition isort (l : list (Q * nat)) : list (Q * nat) :=
  fold_right insert [] l.

(** [np.argsort(v)] on a one-dimensional array: the indices that sort [v]. *)
Definition argsort (v : list Q) : list Z :=
  map (fun p => Z.of_nat (snd p)) (isort (combine v (seq 0 (length v)))).

(** [np.argsort(a, axis=0)]: every column is sorted on its own. *)
Definition argsort0 (a : array2 Q) : array2 Z :=
  let cols := map (fun j => argsort (column 0%Q a j)) (seq 0 (ncols a)) in
  mk2 (ncols a)
      (map (fun i => map (fun c => nth i c 0%Z) cols) (seq 0 (nrows a))).

(** *** slicing, mean *)

(** Python's adjustment of a slice bound for a sequence of length [len]. *)
Definition slice_bound (len i : Z) : Z :=
  if (i <? 0)%Z then Z.max 0 (i + len) else Z.min i len.

(** [l[start:stop]] *)
Definition slice {A} (l : list A) (start stop : Z) : list A :=
  let len := Z.of_nat (length l) in
  let s := slice_bound len start in
  let e := slice_bound len stop in
  firstn (Z.to_nat (e - s)) (skipn (Z.to_nat s) l).

(** [a[start:stop]]: a slice of the rows. *)
Definition slice_rows {A} (a : array2 A) (start stop : Z) : array2 A :=
  mk2 (ncols a) (slice (rows a) start stop).

(** [np.mean(a, axis=0)] of an integer array: column sums divided by the
    number of rows (0/0 = nan on an empty slice). *)
Definition mean0 (a : array2 Z) : list float :=
  map (fun j => div (sum (map of_Z (column 0%Z a j))) (of_Z (Z.of_nat (nrows a))))
      (seq 0 (ncols a)).

(** *** covariance *)

Definition dot (u v : list float) : float :=
  sum (map (fun p => mul (fst p) (snd p)) (combine u v)).

(** [avg = average(X, axis=1)] followed by [X -= avg[:, None]], for rows of
    [d] observations. *)
Definition center_rows (d : nat) (X : list (list float)) : list (list float) :=
  map (fun r =>
         let avg := div (sum r) (of_Z (Z.of_nat d)) in
         map (fun x => sub x avg) r)
      X.

(** [c = dot(X, X.T)] followed by [c *= scale]. *)
Definition scaled_gram (scale : float) (X : list (list float)) : list (list float) :=
  map (fun ri => map (fun rj => mul (dot ri rj) scale) X) X.

(** [c.squeeze()] on a square array: only the 1 x 1 array loses its axes. *)
Definition squeeze (c : array2 float) : ndarray :=
  match rows c with
  | [[x]] => Scalar x
  | _ => Matrix c
  end.

(** [np.cov(m)] with its defaults [rowvar=True], [bias=False]: every ROW of
    [m] is a variable and every column an observation, so the result has
    as many rows and columns as [m] has rows. *)
Definition cov (m : array2 Z) : ndarray :=
  let X := map (map of_Z) (rows m) in
  if (length X =? 0)%nat then Matrix (mk2 0 [])     (* [X.shape[0] == 0] *)
  else
    let fact := (Z.of_nat (ncols m) - 1)%Z in       (* [X.shape[1] - ddof] *)
    let fact := if (fact <=? 0)%Z then 0%Z else fact in
    let X := center_rows (ncols m) X in
    squeeze (mk2 (length X) (scaled_gram (div one (of_Z fact)) X)).

(** *** matrix product and inverse *)

(** [a @ b] on two-dimensional arrays. *)
Definition matmul (a b : array2 float) : result (array2 float) :=
  if negb (ncols a =? nrows b)%nat then Err ValueError
  else Ok (mk2 (ncols b)
             (map (fun r => map (fun j => dot r (column zero b j)) (seq 0 (ncols b)))
                  (rows a))).

Definition identity (n : nat) : list (list float) :=
  map (fun i => map (fun j => if (i =? j)%nat then one else zero) (seq 0 n))
      (seq 0 n).

Definition entry (m : list (list float)) (i j : nat) : float :=
  nth j (nth i m []) zero.

(** LAPACK's [idamax]: the first index carrying the largest absolute value
    (a comparison with [nan] is false). *)
Fixpoint idamax (best : nat) (bestv : float) (cands : list (nat * float)) : nat :=
  match cands with
  | [] => best
  | (i, x) :: t =>
      if ltb (abs bestv) (abs x) then idamax i x t else idamax best bestv t
  end.

Definition pivot_row (m : list (list float)) (k : nat) : nat :=
  idamax k (entry m k k)
         (map (fun i => (i, entry m i k)) (seq (S k) (length m - S k))).

Definition swap_rows (m : list (list float)) (k p : nat) : list (list float) :=
  map (fun i => nth (if (i =? k)%nat then p else if (i =? p)%nat then k else i) m [])
      (seq 0 (length m)).

(** One column of the elimination with partial pivoting; an exactly zero
    pivot is LAPACK's [info > 0], which numpy turns into
    [LinAlgError("Singular matrix")]. *)
Definition eliminate (m : list (list float)) (k : nat) : result (list (list float)) :=
  let m := swap_rows m k (pivot_row m k) in
  let piv := entry m k k in
  if is_zero piv then Err LinAlgError
  else
    let rk := map (fun x => div x piv) (nth k m []) in
    Ok (map (fun ir =>
               if (fst ir =? k)%nat then rk
               else
                 let f := nth k (snd ir) zero in
                 map (fun xy => sub (fst xy) (mul f (snd xy))) (combine (snd ir) rk))
            (combine (seq 0 (length m)) m)).

Fixpoint gauss_jordan (ks : list nat) (m : list (list float)) : result (list (list float)) :=
  match ks with
  | [] => Ok m
  | k :: ks' =>
      match eliminate m k with
      | Err e => Err e
      | Ok m' => gauss_jordan ks' m'
      end
  end.

(** [numpy.linalg.inv]: a zero-dimensional or non-square argument is
    refused with [LinAlgError]; otherwise [a x = I] is solved by elimination
    with partial pivoting.  A [nan] pivot does not compare equal to zero, so
    a matrix of [nan] is not refused: its inverse is a matrix of [nan]. *)
Definition inv (c : ndarray) : result (array2 float) :=
  match c with
  | Scalar _ => Err LinAlgError
  | Matrix a =>
      let n := nrows a in
      if negb (n =? ncols a)%nat then Err LinAlgError
      else
        match gauss_jordan (seq 0 n)
                (map (fun ri => fst ri ++ snd ri) (combine (rows a) (identity n))) with
        | Err e => Err e
        | Ok m => Ok (mk2 n (map (skipn n) m))
        end
  end.

End Np.

Import Np.

(* ================================================================== *)
(** ** The class [CostRank] *)

Module CostRank.

(** The attributes of an instance. *)
Record t : Type := mk {
  cov : option ndarray;
  ranks : option (array2 Z);
  min_size : Z
}.

(** Methods run on the instance and either return or raise; what they wrote
    to the instance before raising stays written. *)
Definition M (A : Type) : Type := t -> result A * t.

Definition ret {A} (a : A) : M A := fun self => (Ok a, self).

Definition bind {A B} (c : M A) (k : A -> M B) : M B :=
  fun self =>
    match c self with
    | (Ok a, self') => k a self'
    | (Err e, self') => (Err e, self')
    end.

Definition raise {A} (e : exn) : M A := fun self => (Err e, self).

Definition lift {A} (r : result A) : M A := fun self => (r, self).

Definition get {A} (field : t -> A) : M A := fun self => (Ok (field self), self).

Definition set_cov (c : ndarray) : M unit :=
  fun self => (Ok tt, mk (Some c) (ranks self) (min_size self)).

Definition set_ranks (r : array2 Z) : M unit :=
  fun self => (Ok tt, mk (cov self) (Some r) (min_size self)).

Notation "x <- c ;; k" := (bind c (fun x => k))
  (at level 61, c at next level, right associativity).
Notation "c ;;; k" := (bind c (fun _ => k))
  (at level 61, right associativity).

(** [CostRank()]: the instance the constructor leaves. *)
Definition __init__ : t := mk None None 2.

(** The signal accepted by [fit]: shape [(n_samples,)] or
    [(n_samples, n_features)]. *)
Inductive signal : Type :=
| Sig1 (v : list Q)
| Sig2 (a : array2 Q).

(** [if signal.ndim == 1: signal = signal.reshape(-1, 1)] *)
Definition as_2d (s : signal) : array2 Q :=
  match s with
  | Sig1 v => reshape_column v
  | Sig2 a => a
  end.

(** [np.argsort(signal, axis=0) + 1] *)
Definition ranks_of (s : array2 Q) : array2 Z :=
  amap (fun k => (k + 1)%Z) (argsort0 s).

(** [ranks / len(signal)] *)
Definition norm_ranks (s : array2 Q) : array2 float :=
  amap (fun k => div (of_Z k) (of_Z (Z.of_nat (nrows s)))) (ranks_of s).

(** [norm_ranks - (1 / 2)], before the cast. *)
Definition centered (s : array2 Q) : array2 float :=
  amap (fun x => sub x half) (norm_ranks s).

(** [(norm_ranks - (1 / 2)).astype(int)] *)
Definition centered_ranks (s : array2 Q) : array2 Z :=
  amap to_int (centered s).

Definition fit (sig : signal) : M unit :=
  let s := as_2d sig in
  let centered_ranks := centered_ranks s in
  let cov := Np.cov centered_ranks in
  set_cov cov ;;;
  set_ranks centered_ranks ;;;
  ret tt.

Definition error (start stop : Z) : M (array2 float) :=
  ms <- get min_size ;;
  if (stop - start <? ms)%Z then raise NotEnoughPoints
  else
    r <- get ranks ;;
    match r with
    | None => raise TypeError                        (* [None[start:end]] *)
    | Some ranks =>
        let mean := reshape_column (mean0 (slice_rows ranks start stop)) in
        let lhs := amap (mul (of_Z (- (stop - start)))) (transpose zero mean) in
        c <- get cov ;;
        ic <- lift (match c with
                    | None => Err LinAlgError         (* [inv(None)]: 0-d *)
                    | Some c => inv c
                    end) ;;
        p <- lift (matmul lhs ic) ;;
        q <- lift (matmul p mean) ;;
        ret (amap (fun x => div x (of_Z (Z.of_nat (nrows ranks)))) q)
    end.

(** The instance after [CostRank().fit(signal)]. *)
Definition fitted (sig : signal) : t := snd (fit sig __init__).

End CostRank.

Import CostRank.

(* ================================================================== *)
(** ** Notions used to state the properties *)

(** Shape of the array stored in [cov]: [None] for a zero-dimensional one. *)
Definition cov_shape (c : ndarray) : option (nat * nat) :=
  match c with
  | Scalar _ => None
  | Matrix a => Some (nrows a, ncols a)
  end.

Definition drop_col {A} (j : nat) (r : list A) : list A :=
  firstn j r ++ skipn (S j) r.

(** Determinant of the [n] x [n] matrix [m], expanded along its first row. *)
Fixpoint det (n : nat) (m : list (list Q)) : Q :=
  match n, m with
  | O, _ => 1
  | S k, r :: m' =>
      fold_right Qplus 0
        (map (fun j => (if Nat.even j then 1 else - (1)) * nth j r 0
                       * det k (map (drop_col j) m'))
             (seq 0 (S k)))
  | S _, [] => 0
  end.

Definition to_Q (x : float) : Q :=
  match x with Fin q => q | _ => 0 end.

(** A singular covariance: a square matrix of finite entries whose
    determinant is zero (a zero-dimensional array is read as 1 x 1). *)
Definition is_singular (c : ndarray) : bool :=
  match c with
  | Scalar x => is_zero x
  | Matrix a =>
      (nrows a =? ncols a)%nat
      && forallb (forallb is_finite) (rows a)
      && Qeq_bool (det (nrows a) (map (map to_Q) (rows a))) 0
  end.

(** Entry [(i, j)] of [norm_ranks - (1 / 2)], in terms of the argsort of
    column [j]. *)
Definition centered_entry (s : array2 Q) (i j : nat) : float :=
  sub (div (of_Z (nth i (argsort (column 0%Q s j)) 0%Z + 1))
           (of_Z (Z.of_nat (nrows s))))
      half.

(** A covariance that has an inverse: a square matrix of finite entries
    whose determinant is not zero (a zero-dimensional array is read as
    1 x 1).  Its negation is the non-invertible covariance; unlike
    [is_singular] it covers the matrices of [nan]. *)
Definition has_inverse (c : ndarray) : bool :=
  match c with
  | Scalar x => is_finite x && negb (is_zero x)
  | Matrix a =>
      (nrows a =? ncols a)%nat
      && forallb (forallb is_finite) (rows a)
      && negb (Qeq_bool (det (nrows a) (map (map to_Q) (rows a))) 0)
  end.

(** Sort position of observation [i] in the column [v], ties broken by the
    original order: the number of observations that come before it in the
    sorted column. *)
Definition sort_position (v : list Q) (i : nat) : Z :=
  let x := nth i v 0 in
  Z.of_nat
    (length (filter (fun y => negb (Qle_bool x y)) v)
     + length (filter (fun y => Qeq_bool y x) (firstn i v))).

(** The centered rank as the comments of [fit] and the specification
    describe it (not as the code computes it): the observation's own sort
    position, normalised into [0, 1) and centered into [-1/2, 1/2). *)
Definition documented_centered (v : list Q) (i : nat) : float :=
  sub (div (of_Z (sort_position v i)) (of_Z (Z.of_nat (length v)))) half.

(** [lo <= x < hi] on finite values. *)
Definition in_range (lo hi : Q) (x : float) : bool :=
  match x with
  | Fin q => Qle_bool lo q && negb (Qle_bool hi q)
  | _ => false
  end.

(** The signals of the examples. *)
Definition signal_1d : signal := Sig1 [1; 5; 2; 6; 3; 4].

Definition signal_2d : signal := Sig2 (mk2 2 [[1; 2]; [3; 4]; [5; 6]]).

(** The constant signal [3, 3, 3, 3]. *)
Definition constant_1d : signal := Sig1 [3; 3; 3; 3].

(* ================================================================== *)
(** ** Lists *)

Lemma map_const_repeat {A B} (f : A -> B) (v : B) (l : list A) :
  (forall x, In x l -> f x = v) -> map f l = repeat v (length l).
Proof.
  induction l as [|a l IH]; intros H; simpl.
  - reflexivity.
  - rewrite (H a) by (left; reflexivity).
    rewrite IH; [reflexivity | intros x Hx; apply H; right; exact Hx].
Qed.

Lemma map_seq_const {B} (f : nat -> B) (v : B) (n : nat) :
  (forall i, (i < n)%nat -> f i = v) -> map f (seq 0 n) = repeat v n.
Proof.
  intros H. replace (repeat v n) with (repeat v (length (seq 0 n)))
    by now rewrite length_seq.
  apply map_const_repeat. intros i Hi. apply in_seq in Hi. apply H. lia.
Qed.

Lemma map_snd_combine {A B} (l1 : list A) (l2 : list B) :
  length l1 = length l2 -> map snd (combine l1 l2) = l2.
Proof.
  revert l2. induction l1 as [|a l1 IH]; intros [|b l2] H; simpl in *;
    try discriminate; try reflexivity.
  f_equal. apply IH. now injection H.
Qed.

(* ================================================================== *)
(** ** argsort returns a permutation of the row indices *)

Lemma insert_perm (p : Q * nat) (l : list (Q * nat)) :
  Permutation (p :: l) (insert p l).
Proof.
  induction l as [|h t IH]; simpl.
  - apply Permutation_refl.
  - destruct (Qle_bool (fst p) (fst h)).
    + apply Permutation_refl.
    + eapply perm_trans; [apply perm_swap | apply perm_skip, IH].
Qed.

Lemma isort_perm (l : list (Q * nat)) : Permutation l (isort l).
Proof.
  induction l as [|p l IH]; simpl.
  - constructor.
  - eapply perm_trans; [apply perm_skip, IH | apply insert_perm].
Qed.

Lemma argsort_perm (v : list Q) :
  Permutation (argsort v) (map Z.of_nat (seq 0 (length v))).
Proof.
  unfold argsort.
  eapply perm_trans.
  - apply Permutation_map, Permutation_sym, isort_perm.
  - rewrite <- (map_map snd Z.of_nat).
    rewrite map_snd_combine; [apply Permutation_refl | now rewrite length_seq].
Qed.

Lemma argsort_length (v : list Q) : length (argsort v) = length v.
Proof.
  rewrite (Permutation_length (argsort_perm v)), length_map, length_seq.
  reflexivity.
Qed.

Lemma argsort_In (v : list Q) (k : Z) :
  In k (argsort v) -> (0 <= k < Z.of_nat (length v))%Z.
Proof.
  intros H.
  apply (Permutation_in _ (argsort_perm v)) in H.
  apply in_map_iff in H. destruct H as (i & <- & Hi).
  apply in_seq in Hi. lia.
Qed.

Lemma column_length {A} (d : A) (a : array2 A) (j : nat) :
  length (column d a j) = nrows a.
Proof. unfold column, nrows. apply length_map. Qed.

(** Every entry of [np.argsort(a, axis=0)] is a row index of [a]. *)
Lemma argsort0_entry (a : array2 Q) (i j : nat) :
  (i < nrows a)%nat ->
  (0 <= nth i (argsort (column 0%Q a j)) 0%Z < Z.of_nat (nrows a))%Z.
Proof.
  intros Hi.
  rewrite <- (column_length 0%Q a j).
  apply argsort_In, nth_In.
  now rewrite argsort_length, column_length.
Qed.

(* ================================================================== *)
(** ** The cast of a centered rank *)

Lemma trunc_small (q : Q) :
  - (1 # 2) < q -> q <= 1 # 2 -> Z.quot (Qnum q) (Z.pos (Qden q)) = 0%Z.
Proof.
  destruct q as [num den]. unfold Qlt, Qle. simpl. intros Hlo Hhi.
  destruct (Z.le_gt_cases 0 num) as [Hpos | Hneg].
  - apply Z.quot_small. lia.
  - replace num with (- (- num))%Z by lia.
    rewrite Z.quot_opp_l by lia.
    rewrite Z.quot_small by lia. reflexivity.
Qed.

(** The centered value of the rank [k + 1] among [n], for a sort index
    [0 <= k < n], lies in (-1/2, 1/2]. *)
Lemma centered_value (k n : Z) :
  (0 <= k < n)%Z ->
  exists q, sub (div (of_Z (k + 1)) (of_Z n)) half = Fin q
            /\ - (1 # 2) < q /\ q <= 1 # 2.
Proof.
  intros Hk.
  unfold of_Z, div, sub, half, opp, add.
  assert (Hn : Qeq_bool (inject_Z n) 0 = false).
  { apply not_true_is_false. intros E. apply Qeq_bool_eq in E.
    unfold Qeq, inject_Z in E. simpl in E. lia. }
  rewrite Hn. eexists. split; [reflexivity|].
  rewrite !Qred_correct.
  unfold Qlt, Qle, Qplus, Qopp, Qdiv, Qmult, Qinv, inject_Z.
  destruct n as [|p|p]; try lia. simpl.
  split; nia.
Qed.

Lemma to_int_centered (k n : Z) :
  (0 <= k < n)%Z -> to_int (sub (div (of_Z (k + 1)) (of_Z n)) half) = 0%Z.
Proof.
  intros Hk. destruct (centered_value Hk) as (q & -> & Hlo & Hhi).
  simpl. now apply trunc_small.
Qed.

(* ================================================================== *)
(** ** The rank transform of [fit] *)

Lemma centered_rows (s : array2 Q) :
  rows (centered s)
  = map (fun i => map (centered_entry s i) (seq 0 (ncols s))) (seq 0 (nrows s)).
Proof.
  unfold centered, norm_ranks, ranks_of, argsort0, amap. simpl.
  rewrite !map_map. apply map_ext. intros i.
  rewrite !map_map. reflexivity.
Qed.

Lemma centered_ncols (s : array2 Q) : ncols (centered s) = ncols s.
Proof. reflexivity. Qed.

Lemma to_int_centered_entry (s : array2 Q) (i j : nat) :
  (i < nrows s)%nat -> to_int (centered_entry s i j) = 0%Z.
Proof.
  intros Hi. unfold centered_entry.
  apply to_int_centered, argsort0_entry, Hi.
Qed.

(** The stored rank matrix is the zero matrix of the signal's shape. *)
Lemma centered_ranks_zero (s : array2 Q) :
  centered_ranks s = full (nrows s) (ncols s) 0%Z.
Proof.
  unfold centered_ranks, amap, full. rewrite centered_ncols. f_equal.
  rewrite centered_rows, map_map.
  apply map_seq_const. intros i Hi.
  rewrite map_map.
  apply map_seq_const. intros j _.
  now apply to_int_centered_entry.
Qed.

Lemma fitted_eq (sig : signal) :
  fitted sig
  = mk (Some (Np.cov (centered_ranks (as_2d sig))))
       (Some (centered_ranks (as_2d sig))) 2.
Proof. reflexivity. Qed.

Lemma fit_returns (sig : signal) : fit sig __init__ = (Ok tt, fitted sig).
Proof. reflexivity. Qed.

(** [fit] overwrites [cov] and [ranks] and leaves [min_size]: fitting an
    instance again gives the instance a first fit on that signal gives. *)
Lemma fit_again (sig sig' : signal) :
  fit sig' (fitted sig) = (Ok tt, fitted sig').
Proof. reflexivity. Qed.

(* ================================================================== *)
(** ** The covariance of a zero matrix *)

Lemma sum_zeros (d : nat) : sum (repeat zero d) = zero.
Proof.
  unfold sum. induction d as [|d IH]; simpl.
  - reflexivity.
  - exact IH.
Qed.

Lemma div_zero_pos (z : Z) : (0 < z)%Z -> div zero (of_Z z) = zero.
Proof.
  intros Hz. unfold div, zero, of_Z.
  assert (Hn : Qeq_bool (inject_Z z) 0 = false).
  { apply not_true_is_false. intros E. apply Qeq_bool_eq in E.
    unfold Qeq, inject_Z in E. simpl in E. lia. }
  rewrite Hn. reflexivity.
Qed.

Lemma mul_zero_fin (q : Q) : mul zero (Fin q) = zero.
Proof.
  reflexivity.
Qed.

Lemma center_rows_zeros (n d : nat) :
  center_rows d (repeat (repeat zero d) n) = repeat (repeat zero d) n.
Proof.
  unfold center_rows. rewrite map_repeat. f_equal.
  destruct d as [|d].
  - reflexivity.
  - rewrite sum_zeros, div_zero_pos by lia.
    rewrite map_repeat. reflexivity.
Qed.

Lemma combine_repeat {A B} (a : A) (b : B) (n : nat) :
  combine (repeat a n) (repeat b n) = repeat (a, b) n.
Proof. induction n; simpl; [reflexivity | now f_equal]. Qed.

Lemma dot_zeros (d : nat) : dot (repeat zero d) (repeat zero d) = zero.
Proof.
  unfold dot. rewrite combine_repeat, map_repeat. apply sum_zeros.
Qed.

Lemma scaled_gram_zeros (scale : float) (n d : nat) :
  scaled_gram scale (repeat (repeat zero d) n)
  = repeat (repeat (mul zero scale) n) n.
Proof.
  unfold scaled_gram. rewrite map_repeat. f_equal.
  rewrite map_repeat. now rewrite dot_zeros.
Qed.

(** What [np.cov] divides by: [1 / fact], with [fact] forced to [0.0] when
    there are fewer than two observations per variable. *)
Lemma cov_scale (d : nat) :
  let fact := (Z.of_nat d - 1)%Z in
  mul zero (div one (of_Z (if (fact <=? 0)%Z then 0%Z else fact)))
  = if (d <=? 1)%nat then NaN else zero.
Proof.
  intros fact. subst fact.
  destruct (Z.leb_spec (Z.of_nat d - 1) 0) as [H | H];
    destruct (Nat.leb_spec d 1) as [H' | H']; try lia.
  - reflexivity.
  - unfold div, one, of_Z.
    assert (Hn : Qeq_bool (inject_Z (Z.of_nat d - 1)) 0 = false).
    { apply not_true_is_false. intros E. apply Qeq_bool_eq in E.
      unfold Qeq, inject_Z in E. simpl in E. lia. }
    rewrite Hn. apply mul_zero_fin.
Qed.

(** The entry every covariance of a zero matrix is filled with. *)
Lemma cov_full_zero (n d : nat) :
  Np.cov (full n d 0%Z)
  = let v := if (d <=? 1)%nat then NaN else zero in
    match n with
    | O => Matrix (mk2 0 [])
    | 1%nat => Scalar v
    | _ => Matrix (full n n v)
    end.
Proof.
  unfold Np.cov, full. cbn [rows ncols].
  rewrite !map_repeat, repeat_length.
  change (of_Z 0) with zero.
  destruct n as [|n]; [reflexivity|].
  cbn [Nat.eqb].
  rewrite center_rows_zeros, scaled_gram_zeros, repeat_length, cov_scale.
  cbv zeta. unfold squeeze. cbn [rows].
  destruct n as [|n]; reflexivity.
Qed.

(* ================================================================== *)
(** ** The inverse of a zero matrix *)

Lemma nth_nth_Forall (P : list float -> Prop) (m : list (list float)) (p : nat) :
  P [] -> Forall P m -> P (nth p m []).
Proof.
  intros Hnil Hm.
  destruct (nth_in_or_default p m []) as [Hin | ->]; [|exact Hnil].
  rewrite Forall_forall in Hm. now apply Hm.
Qed.

(** A first column of zeros leaves no pivot, whichever row is chosen. *)
Lemma eliminate_zero_column (m : list (list float)) :
  m <> [] ->
  Forall (fun r => nth 0 r zero = zero) m ->
  eliminate m 0 = Err LinAlgError.
Proof.
  intros Hne Hm. unfold eliminate.
  set (p := pivot_row m 0).
  assert (Hpiv : entry (swap_rows m 0 p) 0 0 = zero).
  { unfold entry, swap_rows.
    destruct m as [|r m']; [congruence|].
    change (nth 0 (nth p (r :: m') []) zero = zero).
    apply nth_nth_Forall with (P := fun r => nth 0 r zero = zero);
      [reflexivity | exact Hm]. }
  rewrite Hpiv. reflexivity.
Qed.

Lemma inv_zero_matrix (n : nat) :
  (0 < n)%nat -> inv (Matrix (full n n zero)) = Err LinAlgError.
Proof.
  intros Hn. unfold inv, full, nrows. cbn [rows ncols].
  rewrite repeat_length, Nat.eqb_refl. cbn [negb].
  destruct n as [|n]; [lia|].
  cbn [seq gauss_jordan].
  rewrite eliminate_zero_column; [reflexivity | | ].
  - cbn [repeat identity seq map combine]. discriminate.
  - apply Forall_forall. intros r Hr.
    apply in_map_iff in Hr. destruct Hr as ((a, b) & <- & Hab).
    apply in_combine_l, repeat_spec in Hab. subst a. reflexivity.
Qed.

(* ================================================================== *)
(** ** How [error] runs *)

Lemma error_too_short (self : t) (start stop : Z) :
  (stop - start < min_size self)%Z ->
  error start stop self = (Err NotEnoughPoints, self).
Proof.
  intros H. unfold error, bind, get, raise.
  apply Z.ltb_lt in H. rewrite H. reflexivity.
Qed.

Lemma error_inv_fails (self : t) (r : array2 Z) (c : ndarray) (e : exn)
      (start stop : Z) :
  (min_size self <= stop - start)%Z ->
  ranks self = Some r ->
  cov self = Some c ->
  inv c = Err e ->
  error start stop self = (Err e, self).
Proof.
  intros H Hr Hc Hinv. unfold error, bind, get, raise, lift.
  apply Z.ltb_ge in H. rewrite H, Hr, Hc, Hinv. reflexivity.
Qed.

Lemma error_product_fails (self : t) (r : array2 Z) (c : ndarray)
      (ic : array2 float) (start stop : Z) :
  (min_size self <= stop - start)%Z ->
  ranks self = Some r ->
  cov self = Some c ->
  inv c = Ok ic ->
  ncols r <> nrows ic ->
  error start stop self = (Err ValueError, self).
Proof.
  intros H Hr Hc Hinv Hshape. unfold error, bind, get, raise, lift.
  apply Z.ltb_ge in H. rewrite H, Hr, Hc, Hinv.
  unfold matmul at 1.
  unfold amap, transpose, reshape_column, nrows at 1, mean0, slice_rows.
  cbn [ncols rows]. rewrite !length_map, length_seq.
  apply Nat.eqb_neq in Hshape. rewrite Hshape. reflexivity.
Qed.

(** On an instance holding an invertible covariance of the size of the mean
    vector, [error] evaluates its return expression: with
    [cov = [[2, 1], [1, 1]]] and [ranks = [[1, 2], [3, 5], [1, 1]]], the
    segment [0, 2) has mean [(2, 7/2)] and cost [-2 * (29/2) / 3]. *)
Example error_on_invertible_covariance :
  fst (error 0 2
         (mk (Some (Matrix (mk2 2 [[Fin 2; Fin 1]; [Fin 1; Fin 1]])))
             (Some (mk2 2 [[1; 2]; [3; 5]; [1; 1]]%Z)) 2))
  = Ok (mk2 1 [[Fin (-29 # 3)]]).
Proof. vm_compute. reflexivity. Qed.

Lemma error_keeps_instance (self : t) (start stop : Z) :
  snd (error start stop self) = self.
Proof.
  unfold error, bind, get, raise, lift, ret.
  destruct (stop - start <? min_size self)%Z; [reflexivity|].
  destruct (ranks self) as [r|]; [|reflexivity].
  destruct (match cov self with Some c => inv c | None => Err LinAlgError end)
    as [ic|e]; [|reflexivity].
  destruct (matmul _ ic) as [p|e]; [|reflexivity].
  destruct (matmul p _) as [q|e]; reflexivity.
Qed.

(* ================================================================== *)
(** ** Every query on a fitted instance raises *)

(** The covariance [fit] stores, by the shape of the signal. *)
Lemma fitted_cov (sig : signal) :
  cov (fitted sig)
  = Some (let n := nrows (as_2d sig) in
          let v := if (ncols (as_2d sig) <=? 1)%nat then NaN else zero in
          match n with
          | O => Matrix (mk2 0 [])
          | 1%nat => Scalar v
          | _ => Matrix (full n n v)
          end).
Proof.
  rewrite fitted_eq. cbn [cov].
  now rewrite centered_ranks_zero, cov_full_zero.
Qed.

Lemma eliminate_length (m m' : list (list float)) (k : nat) :
  eliminate m k = Ok m' -> length m' = length m.
Proof.
  unfold eliminate.
  destruct (is_zero _); [discriminate|].
  intros H. injection H as <-.
  rewrite length_map, length_combine, length_seq, Nat.min_id.
  unfold swap_rows. now rewrite length_map, length_seq.
Qed.

Lemma gauss_jordan_length (ks : list nat) (m m' : list (list float)) :
  gauss_jordan ks m = Ok m' -> length m' = length m.
Proof.
  revert m. induction ks as [|k ks IH]; intros m; simpl.
  - intros H. now injection H as <-.
  - destruct (eliminate m k) as [m1|e] eqn:E; [|discriminate].
    intros H. rewrite (IH _ H). now apply eliminate_length in E.
Qed.

Lemma identity_length (n : nat) : length (identity n) = n.
Proof. unfold identity. now rewrite length_map, length_seq. Qed.

(** The inverse, when there is one, has as many rows as its argument. *)
Lemma inv_nrows (a ic : array2 float) :
  inv (Matrix a) = Ok ic -> nrows ic = nrows a.
Proof.
  unfold inv.
  destruct (negb (nrows a =? ncols a)%nat); [discriminate|].
  destruct (gauss_jordan _ _) as [m|e] eqn:E; [|discriminate].
  intros H. injection H as <-.
  apply gauss_jordan_length in E.
  unfold nrows at 1. cbn [rows].
  rewrite length_map, E, length_map, length_combine, identity_length.
  apply Nat.min_id.
Qed.

(** On an instance fitted on at least one observation, [error] returns no
    cost, whatever the segment of at least two points. *)
Lemma fitted_error_raises (sig : signal) (start stop : Z) :
  (1 <= nrows (as_2d sig))%nat ->
  (2 <= stop - start)%Z ->
  exists e, error start stop (fitted sig) = (Err e, fitted sig).
Proof.
  intros Hn Hlen.
  pose proof (fitted_cov sig) as Hc. cbv zeta in Hc.
  destruct (nrows (as_2d sig)) as [|[|n]] eqn:En; [lia| |].
  - exists LinAlgError.
    eapply error_inv_fails; [exact Hlen | reflexivity | exact Hc | reflexivity].
  - destruct (ncols (as_2d sig) <=? 1)%nat eqn:Ed.
    + destruct (inv (Matrix (full (S (S n)) (S (S n)) NaN))) as [ic|e] eqn:Ei.
      * exists ValueError.
        pose proof (@inv_nrows _ _ Ei) as Hrows.
        eapply error_product_fails;
          [exact Hlen | reflexivity | exact Hc | exact Ei |].
        rewrite Hrows. unfold full, nrows. cbn [rows]. rewrite repeat_length.
        change (ncols (centered_ranks (as_2d sig))) with (ncols (as_2d sig)).
        apply Nat.leb_le in Ed. lia.
      * exists e.
        eapply error_inv_fails; [exact Hlen | reflexivity | exact Hc | exact Ei].
    + exists LinAlgError.
      eapply error_inv_fails; [exact Hlen | reflexivity | exact Hc |].
      apply inv_zero_matrix. lia.
Qed.

(* ================================================================== *)
(** ** Properties of the class *)

(** C2. On a fitted instance, a segment with [end - start < 2] makes [error]
    raise [NotEnoughPoints]; the instance ([cov], [ranks], [min_size]) is
    the one [fit] left, and [min_size] is the constant 2. *)
Theorem error_short_segment_fitted (sig : signal) (start stop : Z) :
  (stop - start < 2)%Z ->
  error start stop (fitted sig) = (Err NotEnoughPoints, fitted sig)
  /\ min_size (fitted sig) = 2%Z.
Proof.
  intros H. split; [|reflexivity].
  apply error_too_short. exact H.
Qed.

Lemma error_short_segment_fitted_witness :
  (1 - 0 < 2)%Z
  /\ error 0 1 (fitted signal_1d) = (Err NotEnoughPoints, fitted signal_1d)
  /\ min_size (fitted signal_1d) = 2%Z.
Proof.
  split; [lia | apply (error_short_segment_fitted signal_1d 0 1); lia].
Defined.

(** C10. The size check comes before any read of the fitted state: on the
    instance the constructor leaves, and on any instance whose [min_size]
    is 2 whatever [cov] and [ranks] hold, a segment with [end - start < 2]
    makes [error] raise [NotEnoughPoints]. *)
Theorem error_short_segment_unfitted (start stop : Z) :
  (stop - start < 2)%Z ->
  error start stop __init__ = (Err NotEnoughPoints, __init__)
  /\ forall c r, fst (error start stop (mk c r 2)) = Err NotEnoughPoints.
Proof.
  intros H. split.
  - apply error_too_short. exact H.
  - intros c r. now rewrite error_too_short.
Qed.

Lemma error_short_segment_unfitted_witness :
  (5 - 4 < 2)%Z
  /\ error 4 5 __init__ = (Err NotEnoughPoints, __init__)
  /\ forall c r, fst (error 4 5 (mk c r 2)) = Err NotEnoughPoints.
Proof.
  split; [lia | apply (error_short_segment_unfitted 4 5); lia].
Defined.

(** C8. [error] is a pure function of [(start, end)]: a call leaves the
    instance as it found it, so a second call with the same arguments gives
    the same result. *)
Theorem error_is_pure (self : t) (start stop : Z) :
  snd (error start stop self) = self
  /\ error start stop (snd (error start stop self)) = error start stop self.
Proof.
  split.
  - apply error_keeps_instance.
  - now rewrite error_keeps_instance.
Qed.

(** C9. After [fit], whatever the signal (1-D or 2-D), the stored rank
    matrix is the zero matrix of the signal's shape and the stored
    covariance is the covariance of that zero matrix; the boundary rank
    [n] has the centered value [n/n - 1/2 = 1/2], which the cast sends to 0
    as well. *)
Theorem fit_stores_zero_ranks (sig : signal) :
  let n := nrows (as_2d sig) in
  let d := ncols (as_2d sig) in
  ranks (fitted sig) = Some (full n d 0%Z)
  /\ cov (fitted sig) = Some (Np.cov (full n d 0%Z))
  /\ forall p : positive,
       sub (div (of_Z (Z.pos p)) (of_Z (Z.pos p))) half = half
       /\ to_int half = 0%Z.
Proof.
  intros n d. rewrite fitted_eq. cbn [ranks cov].
  rewrite centered_ranks_zero. repeat split.
  unfold div, of_Z.
  assert (Hn : Qeq_bool (inject_Z (Z.pos p)) 0 = false) by reflexivity.
  rewrite Hn.
  assert (E : Qred (inject_Z (Z.pos p) / inject_Z (Z.pos p)) = 1).
  { change 1 with (Qred 1). apply Qred_complete.
    unfold Qeq, Qdiv, Qmult, Qinv, inject_Z. simpl. lia. }
  rewrite E. reflexivity.
Qed.

(** C5, as stated, fails: on the signal [1, 5, 2, 6, 3, 4] no entry of the
    coerced rank matrix is nonzero, the boundary entry included. *)
Lemma cast_leaves_no_nonzero_entry :
  ~ Exists (Exists (fun z => z <> 0%Z))
      (rows (centered_ranks (as_2d signal_1d))).
Proof.
  vm_compute rows.
  intros H. repeat
    match goal with
    | H : Exists _ (_ :: _) |- _ => inversion H; clear H; subst
    | H : Exists _ [] |- _ => inversion H
    | H : ?x <> ?x |- _ => now apply H
    end.
Qed.

(** C5, amended. The cast collapses every centered value to 0, the boundary
    value 1/2 included: on every signal, each entry of
    [norm_ranks - (1 / 2)] is sent to 0 by [astype(int)]. *)
Theorem cast_collapses_every_centered_value (sig : signal) :
  Forall (Forall (fun x => to_int x = 0%Z)) (rows (centered (as_2d sig)))
  /\ to_int half = 0%Z.
Proof.
  split; [|reflexivity].
  rewrite centered_rows. apply Forall_forall. intros r Hr.
  apply in_map_iff in Hr. destruct Hr as (i & <- & Hi).
  apply in_seq in Hi.
  apply Forall_forall. intros x Hx.
  apply in_map_iff in Hx. destruct Hx as (j & <- & _).
  apply to_int_centered_entry. lia.
Qed.

(** C6. On the constant signal [3, 3, 3, 3] the covariance has no inverse
    and [fit] returns and stores it, but the failure the query meets is not
    an inversion failure: the stored covariance is a 4 x 4 matrix of [nan],
    [inv] raises nothing on it and returns a matrix of [nan], and
    [error(0, 2)] raises [ValueError] from the product of the 1 x 1 row by
    that 4 x 4 matrix. *)
Theorem constant_signal_query_raises_value_error :
  fit constant_1d __init__ = (Ok tt, fitted constant_1d)
  /\ cov (fitted constant_1d) = Some (Matrix (full 4 4 NaN))
  /\ has_inverse (Matrix (full 4 4 NaN)) = false
  /\ inv (Matrix (full 4 4 NaN)) = Ok (full 4 4 NaN)
  /\ error 0 2 (fitted constant_1d) = (Err ValueError, fitted constant_1d).
Proof.
  repeat split; vm_compute; reflexivity.
Qed.


(** C3. On the signal [[1, 2], [3, 4], [5, 6]] (n = 3, d = 2) the stored
    covariance has shape (3, 3), one row and column per observation, while
    the mean rank vector [error] computes over rows [0, 2) has length 2,
    one entry per feature. *)
Theorem covariance_axis_mismatch :
  exists c r,
    cov (fitted signal_2d) = Some c
    /\ ranks (fitted signal_2d) = Some r
    /\ cov_shape c = Some (3, 3)%nat
    /\ length (mean0 (slice_rows r 0 2)) = 2%nat.
Proof.
  eexists. eexists. repeat split; vm_compute; reflexivity.
Qed.

(** C4. On the signal [1, 5, 2, 6, 3, 4] the centered values computed by
    [fit] before the cast are [-1/3, 0, 1/3, 1/2, -1/6, 1/6]: the value 1/2
    lies outside [-1/2, 1/2), and the values are not the ones derived from
    each observation's own sort position, which are
    [-1/2, 1/6, -1/3, 1/3, -1/6, 0]. *)
Theorem centered_ranks_differ_from_documented :
  rows (centered (as_2d signal_1d))
  = [[Fin (-1 # 3)]; [Fin 0]; [Fin (1 # 3)]; [Fin (1 # 2)]; [Fin (-1 # 6)];
     [Fin (1 # 6)]]
  /\ forallb (forallb (in_range (- (1 # 2)) (1 # 2)))
       (rows (centered (as_2d signal_1d))) = false
  /\ map (documented_centered [1; 5; 2; 6; 3; 4]) (seq 0 6)
     = [Fin (-1 # 2); Fin (1 # 6); Fin (-1 # 3); Fin (1 # 3); Fin (-1 # 6);
        Fin 0]
  /\ forallb (in_range (- (1 # 2)) (1 # 2))
       (map (documented_centered [1; 5; 2; 6; 3; 4]) (seq 0 6)) = true.
Proof.
  repeat split; vm_compute; reflexivity.
Qed.

(** C7. On the 1-D signal [1, 5, 2, 6, 3, 4]: [fit] returns, [min_size] is
    2 and [error(0, 1)] raises [NotEnoughPoints]; but [error(0, 2)] and
    [error(2, 4)] return no value.  The stored covariance is a 6 x 6 matrix
    of [nan] and the product of the 1 x 1 row by its 6 x 6 inverse raises
    [ValueError]. *)
Theorem scenario_1d_queries_raise :
  fit signal_1d __init__ = (Ok tt, fitted signal_1d)
  /\ min_size (fitted signal_1d) = 2%Z
  /\ fst (error 0 1 (fitted signal_1d)) = Err NotEnoughPoints
  /\ cov (fitted signal_1d) = Some (Matrix (full 6 6 NaN))
  /\ fst (error 0 2 (fitted signal_1d)) = Err ValueError
  /\ fst (error 2 4 (fitted signal_1d)) = Err ValueError.
Proof.
  repeat split; vm_compute; reflexivity.
Qed.

(* ================================================================== *)
(** ** Further properties of [fit]: the rank encoding *)

Lemma map_nth_seq {A} (l : list A) (d : A) :
  map (fun i => nth i l d) (seq 0 (length l)) = l.
Proof.
  induction l as [|a l IH]; simpl.
  - reflexivity.
  - f_equal. rewrite <- seq_shift, map_map. exact IH.
Qed.

Lemma nth_map_default {A B} (f : A -> B) (l : list A) (j : nat) (d : A) (d' : B) :
  (j < length l)%nat -> nth j (map f l) d' = f (nth j l d).
Proof.
  intros Hj. rewrite (nth_indep _ d' (f d)) by now rewrite length_map.
  apply map_nth.
Qed.

(** Column [j] of [np.argsort(signal, axis=0) + 1] is the argsort of column
    [j] of the signal, shifted by one. *)
Lemma ranks_of_column (s : array2 Q) (j : nat) :
  (j < ncols s)%nat ->
  column 0%Z (ranks_of s) j
  = map (fun k => (k + 1)%Z) (argsort (column 0%Q s j)).
Proof.
  intros Hj. unfold column at 1, ranks_of, argsort0, amap. cbn [rows].
  rewrite !map_map.
  rewrite <- (map_nth_seq (argsort (column 0%Q s j)) 0%Z).
  rewrite argsort_length, column_length, map_map.
  apply map_ext. intros i.
  rewrite map_map.
  rewrite (nth_map_default _ _ []) by now rewrite length_map, length_seq.
  rewrite (nth_map_default _ _ 0%nat) by now rewrite length_seq.
  now rewrite seq_nth.
Qed.

(** X1. Every column of [np.argsort(signal, axis=0) + 1] is a permutation
    of [1, ..., n]. *)
Theorem ranks_columns_are_permutations (s : array2 Q) (j : nat) :
  (j < ncols s)%nat ->
  Permutation (column 0%Z (ranks_of s) j)
              (map (fun i => (Z.of_nat i + 1)%Z) (seq 0 (nrows s))).
Proof.
  intros Hj. rewrite (ranks_of_column s Hj).
  rewrite <- (column_length 0%Q s j).
  rewrite <- (map_map Z.of_nat (fun k => (k + 1)%Z)).
  apply Permutation_map, argsort_perm.
Qed.

Lemma ranks_columns_are_permutations_witness :
  (0 < ncols (as_2d signal_1d))%nat
  /\ Permutation (column 0%Z (ranks_of (as_2d signal_1d)) 0)
       (map (fun i => (Z.of_nat i + 1)%Z) (seq 0 (nrows (as_2d signal_1d)))).
Proof.
  split; [simpl; lia|].
  apply (ranks_columns_are_permutations (as_2d signal_1d) (j := 0)).
  simpl; lia.
Defined.

(** The sort on (value, index) pairs orders the values. *)
Lemma insert_sorted (p : Q * nat) (l : list (Q * nat)) :
  Sorted (fun a b => fst a <= fst b) l ->
  Sorted (fun a b => fst a <= fst b) (insert p l).
Proof.
  induction l as [|h t IH]; intros Hs; simpl.
  - repeat constructor.
  - destruct (Qle_bool (fst p) (fst h)) eqn:E.
    + constructor; [exact Hs|]. constructor. now apply Qle_bool_iff.
    + assert (Hhp : fst h <= fst p).
      { apply Qlt_le_weak, Qnot_le_lt. intros C.
        apply Qle_bool_iff in C. congruence. }
      inversion Hs as [|? ? Hst Hhd]; subst.
      constructor; [now apply IH|].
      destruct t as [|h' t']; simpl.
      * now constructor.
      * destruct (Qle_bool (fst p) (fst h')); constructor;
          [exact Hhp | now inversion Hhd].
Qed.

Lemma isort_sorted (l : list (Q * nat)) :
  Sorted (fun a b => fst a <= fst b) (isort l).
Proof.
  induction l as [|p l IH]; simpl; [constructor | now apply insert_sorted].
Qed.

Lemma Sorted_nth_adjacent {A} (R : A -> A -> Prop) (l : list A) (d : A) (i : nat) :
  Sorted R l -> (S i < length l)%nat -> R (nth i l d) (nth (S i) l d).
Proof.
  intros Hs. revert i. induction Hs as [|a l Hs IH Hhd]; intros i Hi.
  - simpl in Hi. lia.
  - destruct i as [|i].
    + destruct l as [|b l]; [simpl in Hi; lia|]. now inversion Hhd.
    + apply IH. simpl in Hi. lia.
Qed.

(** A pair of [combine v (seq s _)] carries the value found at its index. *)
Lemma combine_seq_value (v : list Q) (s : nat) (x : Q) (i : nat) :
  In (x, i) (combine v (seq s (length v))) ->
  (s <= i)%nat /\ nth (i - s) v 0 = x.
Proof.
  revert s. induction v as [|a v IH]; intros s H; simpl in H.
  - contradiction.
  - destruct H as [H | H].
    + injection H as -> ->. rewrite Nat.sub_diag. split; [lia | reflexivity].
    + apply IH in H. destruct H as (Hs & Hx). split; [lia|].
      replace (i - s)%nat with (S (i - S s)) by lia. exact Hx.
Qed.

Lemma isort_length (l : list (Q * nat)) : length (isort l) = length l.
Proof. symmetry. apply Permutation_length, isort_perm. Qed.

(** The values read at consecutive entries of [np.argsort(v)] are in
    nondecreasing order. *)
Lemma argsort_sorted (v : list Q) (i : nat) :
  (S i < length v)%nat ->
  nth (Z.to_nat (nth i (argsort v) 0%Z)) v 0
  <= nth (Z.to_nat (nth (S i) (argsort v) 0%Z)) v 0.
Proof.
  intros Hi. unfold argsort.
  set (L := isort (combine v (seq 0 (length v)))).
  assert (HL : length L = length v).
  { unfold L. now rewrite isort_length, length_combine, length_seq, Nat.min_id. }
  rewrite !(nth_map_default _ _ (0, 0%nat)) by lia.
  rewrite !Nat2Z.id.
  assert (Hval : forall k, (k < length v)%nat ->
                           nth (snd (nth k L (0, 0%nat))) v 0 = fst (nth k L (0, 0%nat))).
  { intros k Hk.
    assert (Hin : In (nth k L (0, 0%nat)) L) by (apply nth_In; lia).
    apply (Permutation_in _ (Permutation_sym (isort_perm _))) in Hin.
    destruct (nth k L (0, 0%nat)) as (x, n). cbn [fst snd].
    apply combine_seq_value in Hin. destruct Hin as (_ & Hx).
    now rewrite Nat.sub_0_r in Hx. }
  rewrite !Hval by lia.
  apply (Sorted_nth_adjacent (R := fun a b => fst a <= fst b));
    [apply isort_sorted | lia].
Qed.

(** X2. The rank matrix holds sort indices, not ranks: along every column,
    entry [i] of [np.argsort(signal, axis=0) + 1] is the 1-based row of the
    [i]-th smallest observation, so the observations read in the order of
    the entries are nondecreasing. *)
Theorem ranks_entries_index_sorted_observations (s : array2 Q) (i j : nat) :
  (j < ncols s)%nat ->
  (S i < nrows s)%nat ->
  let r := column 0%Z (ranks_of s) j in
  let v := column 0%Q s j in
  nth (Z.to_nat (nth i r 0%Z - 1)) v 0 <= nth (Z.to_nat (nth (S i) r 0%Z - 1)) v 0.
Proof.
  intros Hj Hi r v. subst r v.
  rewrite (ranks_of_column s Hj).
  rewrite !(nth_map_default _ _ 0%Z) by (rewrite argsort_length, column_length; lia).
  rewrite !Z.add_simpl_r.
  apply argsort_sorted. rewrite column_length. lia.
Qed.

Lemma ranks_entries_index_sorted_observations_witness :
  (0 < ncols (as_2d signal_1d))%nat
  /\ (S 1 < nrows (as_2d signal_1d))%nat
  /\ nth (Z.to_nat (nth 1 (column 0%Z (ranks_of (as_2d signal_1d)) 0) 0%Z - 1))
         (column 0%Q (as_2d signal_1d) 0) 0
     <= nth (Z.to_nat (nth 2 (column 0%Z (ranks_of (as_2d signal_1d)) 0) 0%Z - 1))
            (column 0%Q (as_2d signal_1d) 0) 0.
Proof.
  split; [vm_compute; lia|]. split; [vm_compute; lia|].
  apply (ranks_entries_index_sorted_observations (as_2d signal_1d) (i := 1) (j := 0));
    vm_compute; lia.
Defined.

(** X3. Before the cast, every entry of [norm_ranks - (1 / 2)] is a finite
    value in the interval (-1/2, 1/2]: the lower bound is excluded and the
    upper bound included, whatever the signal. *)
Theorem centered_values_range (sig : signal) :
  Forall (Forall (fun x => exists q, x = Fin q /\ - (1 # 2) < q /\ q <= 1 # 2))
         (rows (centered (as_2d sig))).
Proof.
  rewrite centered_rows. apply Forall_forall. intros r Hr.
  apply in_map_iff in Hr. destruct Hr as (i & <- & Hi).
  apply in_seq in Hi.
  apply Forall_forall. intros x Hx.
  apply in_map_iff in Hx. destruct Hx as (j & <- & _).
  unfold centered_entry. apply centered_value, argsort0_entry. lia.
Qed.

Lemma centered_boundary (n : Z) :
  (0 < n)%Z -> sub (div (of_Z n) (of_Z n)) half = half.
Proof.
  intros Hn. destruct n as [|p|p]; try lia.
  unfold div, of_Z.
  assert (Hz : Qeq_bool (inject_Z (Z.pos p)) 0 = false) by reflexivity.
  rewrite Hz.
  assert (E : Qred (inject_Z (Z.pos p) / inject_Z (Z.pos p)) = 1).
  { change 1 with (Qred 1). apply Qred_complete.
    unfold Qeq, Qdiv, Qmult, Qinv, inject_Z. simpl. lia. }
  rewrite E. reflexivity.
Qed.

Lemma centered_column (s : array2 Q) (j : nat) :
  (j < ncols s)%nat ->
  column zero (centered s) j = map (fun i => centered_entry s i j) (seq 0 (nrows s)).
Proof.
  intros Hj. unfold column. rewrite centered_rows, map_map.
  apply map_ext. intros i.
  rewrite (nth_map_default _ _ 0%nat) by now rewrite length_seq.
  now rewrite seq_nth.
Qed.

(** X4. On a signal with at least one observation, every column of
    [norm_ranks - (1 / 2)] contains the value 1/2 (the entry whose sort
    index is the last row), so the centered values are never confined to
    [-1/2, 1/2). *)
Theorem centered_column_reaches_half (s : array2 Q) (j : nat) :
  (1 <= nrows s)%nat ->
  (j < ncols s)%nat ->
  In half (column zero (centered s) j).
Proof.
  intros Hn Hj. rewrite (centered_column s Hj).
  assert (Hin : In (Z.of_nat (nrows s - 1)) (argsort (column 0%Q s j))).
  { apply (Permutation_in _ (Permutation_sym (argsort_perm _))).
    apply in_map, in_seq. rewrite column_length. lia. }
  apply (In_nth _ _ 0%Z) in Hin. destruct Hin as (i & Hi & Hnth).
  rewrite argsort_length, column_length in Hi.
  apply in_map_iff. exists i. split; [|apply in_seq; lia].
  unfold centered_entry. rewrite Hnth.
  replace (Z.of_nat (nrows s - 1) + 1)%Z with (Z.of_nat (nrows s)) by lia.
  apply centered_boundary. lia.
Qed.

Lemma centered_column_reaches_half_witness :
  (1 <= nrows (as_2d signal_2d))%nat
  /\ (1 < ncols (as_2d signal_2d))%nat
  /\ In half (column zero (centered (as_2d signal_2d)) 1).
Proof.
  split; [vm_compute; lia|]. split; [vm_compute; lia|].
  apply (centered_column_reaches_half (as_2d signal_2d) (j := 1)); vm_compute; lia.
Defined.

(* ================================================================== *)
(** ** Further properties of [fit]: what is stored *)

(** X5. [fit] always returns, and what it leaves on the instance depends on
    the signal through its shape only: two signals with the same numbers of
    rows and columns, fitted on instances with the same [min_size] (in
    whatever state), leave the same instance. *)
Theorem fit_keeps_only_the_shape (self self' : t) (sig sig' : signal) :
  nrows (as_2d sig) = nrows (as_2d sig') ->
  ncols (as_2d sig) = ncols (as_2d sig') ->
  min_size self = min_size self' ->
  fst (fit sig self) = Ok tt /\ snd (fit sig self) = snd (fit sig' self').
Proof.
  intros Hn Hd Hm. split; [reflexivity|].
  unfold fit, bind, set_cov, set_ranks, ret. cbn [snd cov ranks min_size].
  now rewrite !centered_ranks_zero, Hn, Hd, Hm.
Qed.

Lemma fit_keeps_only_the_shape_witness :
  nrows (as_2d signal_2d) = nrows (as_2d (Sig2 (mk2 2 [[9; 9]; [0; 1]; [5; 5]])))
  /\ ncols (as_2d signal_2d) = ncols (as_2d (Sig2 (mk2 2 [[9; 9]; [0; 1]; [5; 5]])))
  /\ min_size (fitted signal_1d) = min_size __init__
  /\ fst (fit signal_2d (fitted signal_1d)) = Ok tt
  /\ snd (fit signal_2d (fitted signal_1d))
     = snd (fit (Sig2 (mk2 2 [[9; 9]; [0; 1]; [5; 5]])) __init__).
Proof.
  split; [reflexivity|]. split; [reflexivity|]. split; [reflexivity|].
  apply (fit_keeps_only_the_shape (fitted signal_1d) __init__ signal_2d
           (Sig2 (mk2 2 [[9; 9]; [0; 1]; [5; 5]]))); reflexivity.
Defined.

(** X6. On a signal of [n >= 2] observations the stored covariance has one
    row and one column per observation ([n] x [n]), not per feature; all its
    entries are [nan] when the signal has at most one feature column and
    zero otherwise. *)
Theorem fitted_covariance_is_per_observation (sig : signal) :
  (2 <= nrows (as_2d sig))%nat ->
  let n := nrows (as_2d sig) in
  cov (fitted sig)
  = Some (Matrix (full n n (if (ncols (as_2d sig) <=? 1)%nat then NaN else zero))).
Proof.
  intros Hn n. subst n. rewrite fitted_cov. cbv zeta.
  destruct (nrows (as_2d sig)) as [|[|n]]; [lia | lia | reflexivity].
Qed.

Lemma fitted_covariance_is_per_observation_witness :
  (2 <= nrows (as_2d signal_1d))%nat
  /\ cov (fitted signal_1d)
     = Some (Matrix (full (nrows (as_2d signal_1d)) (nrows (as_2d signal_1d))
                       (if (ncols (as_2d signal_1d) <=? 1)%nat then NaN else zero))).
Proof.
  split; [vm_compute; lia|].
  apply (fitted_covariance_is_per_observation signal_1d). vm_compute; lia.
Defined.

Lemma Qsum_zero {A} (f : A -> Q) (l : list A) :
  (forall x, In x l -> f x == 0) -> fold_right Qplus 0 (map f l) == 0.
Proof.
  induction l as [|a l IH]; intros H; simpl.
  - reflexivity.
  - rewrite (H a) by now left. rewrite IH by (intros x Hx; apply H; now right).
    reflexivity.
Qed.

Lemma det_zero_first_row (k : nat) (m : list (list Q)) :
  det (S k) (repeat 0 (S k) :: m) == 0.
Proof.
  cbn [det]. apply Qsum_zero. intros j _.
  rewrite nth_repeat. rewrite Qmult_0_r, Qmult_0_l. reflexivity.
Qed.

Lemma full_zero_singular (n : nat) :
  (1 <= n)%nat -> is_singular (Matrix (full n n zero)) = true.
Proof.
  intros Hn. unfold is_singular, full, nrows. cbn [rows ncols].
  rewrite repeat_length, Nat.eqb_refl. cbn [andb].
  apply andb_true_intro. split.
  - apply forallb_forall. intros r Hr. apply repeat_spec in Hr. subst r.
    apply forallb_forall. intros x Hx. apply repeat_spec in Hx. now subst x.
  - apply Qeq_bool_iff. rewrite !map_repeat.
    destruct n as [|k]; [lia|]. apply det_zero_first_row.
Qed.

(** X7. Every signal with at least one observation and at least two feature
    columns gets a singular covariance (all zeros), so every query on a
    segment of at least two points raises [LinAlgError]. *)
Theorem multi_feature_signal_is_singular (sig : signal) (start stop : Z) :
  (1 <= nrows (as_2d sig))%nat ->
  (2 <= ncols (as_2d sig))%nat ->
  (2 <= stop - start)%Z ->
  is_singular (Np.cov (centered_ranks (as_2d sig))) = true
  /\ error start stop (fitted sig) = (Err LinAlgError, fitted sig).
Proof.
  intros Hn Hd Hlen.
  pose proof (fitted_cov sig) as Hc. cbv zeta in Hc.
  rewrite centered_ranks_zero, cov_full_zero. cbv zeta.
  apply Nat.leb_gt in Hd. rewrite Hd in *.
  destruct (nrows (as_2d sig)) as [|[|n]]; [lia| |].
  - split; [reflexivity|].
    eapply error_inv_fails; [exact Hlen | reflexivity | exact Hc | reflexivity].
  - split; [apply full_zero_singular; lia|].
    eapply error_inv_fails; [exact Hlen | reflexivity | exact Hc |].
    apply inv_zero_matrix. lia.
Qed.

Lemma multi_feature_signal_is_singular_witness :
  (1 <= nrows (as_2d signal_2d))%nat
  /\ (2 <= ncols (as_2d signal_2d))%nat
  /\ (2 <= 3 - 0)%Z
  /\ is_singular (Np.cov (centered_ranks (as_2d signal_2d))) = true
  /\ error 0 3 (fitted signal_2d) = (Err LinAlgError, fitted signal_2d).
Proof.
  split; [vm_compute; lia|]. split; [vm_compute; lia|]. split; [lia|].
  apply (multi_feature_signal_is_singular signal_2d 0 3);
    [vm_compute; lia | vm_compute; lia | lia].
Defined.

(* ================================================================== *)
(** ** Further properties of [error]: which exception, which result *)

Lemma eliminate_error_kind (m : list (list float)) (k : nat) (e : exn) :
  eliminate m k = Err e -> e = LinAlgError.
Proof.
  unfold eliminate. destruct (is_zero _); [|discriminate].
  intros H. now injection H.
Qed.

Lemma gauss_jordan_error_kind (ks : list nat) (m : list (list float)) (e : exn) :
  gauss_jordan ks m = Err e -> e = LinAlgError.
Proof.
  revert m. induction ks as [|k ks IH]; intros m; simpl; [discriminate|].
  destruct (eliminate m k) as [m'|e'] eqn:E.
  - apply IH.
  - intros H. injection H as <-. now apply eliminate_error_kind in E.
Qed.

Lemma inv_error_kind (c : ndarray) (e : exn) :
  inv c = Err e -> e = LinAlgError.
Proof.
  destruct c as [x|a]; simpl.
  - intros H. now injection H.
  - destruct (negb _); [intros H; now injection H|].
    destruct (gauss_jordan _ _) as [m|e'] eqn:E; [discriminate|].
    intros H. injection H as <-. now apply gauss_jordan_error_kind in E.
Qed.

Lemma matmul_error_kind (a b : array2 float) (e : exn) :
  matmul a b = Err e -> e = ValueError.
Proof.
  unfold matmul. destruct (negb _); [|discriminate].
  intros H. now injection H.
Qed.

(** The exceptions [error] can raise, each with the condition it is raised
    under. *)
Lemma error_raise_cases (self : t) (start stop : Z) (e : exn) :
  fst (error start stop self) = Err e ->
  (e = NotEnoughPoints /\ (stop - start < min_size self)%Z)
  \/ (e = TypeError /\ (min_size self <= stop - start)%Z /\ ranks self = None)
  \/ ((e = LinAlgError \/ e = ValueError)
      /\ (min_size self <= stop - start)%Z /\ ranks self <> None).
Proof.
  unfold error, bind, get, raise, lift, ret.
  destruct (Z.ltb_spec (stop - start) (min_size self)) as [Hlt | Hge].
  - intros H. injection H as <-. now left.
  - destruct (ranks self) as [r|].
    + intros H. right. right. split; [|split; [exact Hge | discriminate]].
      revert H.
      destruct (match cov self with Some c => inv c | None => Err LinAlgError end)
        as [ic|e1] eqn:Ei.
      * destruct (matmul _ ic) as [p|e2] eqn:Ep.
        -- destruct (matmul p _) as [q|e3] eqn:Eq; cbn [fst].
           ++ discriminate.
           ++ intros H. injection H as <-. right. eapply matmul_error_kind, Eq.
        -- cbn [fst]. intros H. injection H as <-. right.
           eapply matmul_error_kind, Ep.
      * cbn [fst]. intros H. injection H as <-. left.
        destruct (cov self) as [c|].
        -- eapply inv_error_kind, Ei.
        -- now injection Ei.
    + intros H. injection H as <-. right. left. now split.
Qed.

(** X8. On an instance fitted on at least one observation, no query on a
    segment of at least two points returns a cost: [error] raises
    [LinAlgError] or [ValueError], and the instance stays as fitted. *)
Theorem fitted_queries_never_return (sig : signal) (start stop : Z) :
  (1 <= nrows (as_2d sig))%nat ->
  (2 <= stop - start)%Z ->
  exists e, error start stop (fitted sig) = (Err e, fitted sig)
            /\ (e = LinAlgError \/ e = ValueError).
Proof.
  intros Hn Hlen.
  destruct (@fitted_error_raises sig start stop Hn Hlen) as (e & He).
  exists e. split; [exact He|].
  assert (Hf : fst (error start stop (fitted sig)) = Err e) by now rewrite He.
  apply error_raise_cases in Hf.
  destruct Hf as [(_ & Hlt) | [(_ & _ & Hr) | (Hk & _)]].
  - change (min_size (fitted sig)) with 2%Z in Hlt. lia.
  - discriminate Hr.
  - exact Hk.
Qed.

Lemma fitted_queries_never_return_witness :
  (1 <= nrows (as_2d signal_1d))%nat
  /\ (2 <= 6 - 0)%Z
  /\ exists e, error 0 6 (fitted signal_1d) = (Err e, fitted signal_1d)
               /\ (e = LinAlgError \/ e = ValueError).
Proof.
  split; [vm_compute; lia|]. split; [lia|].
  apply (fitted_queries_never_return signal_1d 0 6); [vm_compute; lia | lia].
Defined.

(** X9. On any instance, fitted or not, [error] raises [NotEnoughPoints]
    exactly when [end - start] is below the instance's [min_size]: no other
    failure of the query is reported under that name. *)
Theorem not_enough_points_iff (self : t) (start stop : Z) :
  fst (error start stop self) = Err NotEnoughPoints
  <-> (stop - start < min_size self)%Z.
Proof.
  split.
  - intros H. apply error_raise_cases in H.
    destruct H as [(_ & Hlt) | [(He & _) | ([He | He] & _)]];
      [exact Hlt | discriminate He | discriminate He | discriminate He].
  - intros H. now rewrite error_too_short.
Qed.

(** X10. On an instance that was never fitted ([ranks] is [None]), a query
    on a segment that passes the size check raises [TypeError] and leaves
    the instance as it was. *)
Theorem error_before_fit (self : t) (start stop : Z) :
  ranks self = None ->
  (min_size self <= stop - start)%Z ->
  error start stop self = (Err TypeError, self).
Proof.
  intros Hr Hlen. unfold error, bind, get, raise.
  apply Z.ltb_ge in Hlen. now rewrite Hlen, Hr.
Qed.

Lemma error_before_fit_witness :
  ranks __init__ = None
  /\ (min_size __init__ <= 150 - 50)%Z
  /\ error 50 150 __init__ = (Err TypeError, __init__).
Proof.
  split; [reflexivity|]. split; [simpl; lia|].
  apply (error_before_fit __init__ 50 150); [reflexivity | simpl; lia].
Defined.

(** X11. Whenever [error] returns, what it returns is a two-dimensional
    array of shape (1, 1) (the product of a 1 x d row, a d x d matrix and a
    d x 1 column), not a bare float. *)
Theorem error_result_is_one_by_one (self : t) (start stop : Z) (v : array2 float) :
  fst (error start stop self) = Ok v -> exists x, v = mk2 1 [[x]].
Proof.
  unfold error, bind, get, raise, lift, ret.
  destruct (stop - start <? min_size self)%Z; [discriminate|].
  destruct (ranks self) as [r|]; [|discriminate].
  destruct (match cov self with Some c => inv c | None => Err LinAlgError end)
    as [ic|e1]; [|discriminate].
  unfold matmul at 1.
  destruct (negb _); [discriminate|].
  unfold matmul at 1.
  destruct (negb _); [discriminate|].
  cbn [fst]. intros H. injection H as <-.
  unfold amap, transpose, reshape_column. cbn [ncols rows seq map].
  eexists. reflexivity.
Qed.

Lemma error_result_is_one_by_one_witness :
  fst (error 0 2
         (mk (Some (Matrix (mk2 2 [[Fin 2; Fin 1]; [Fin 1; Fin 1]])))
             (Some (mk2 2 [[1; 2]; [3; 5]; [1; 1]]%Z)) 2))
  = Ok (mk2 1 [[Fin (-29 # 3)]])
  /\ exists x, mk2 1 [[Fin (-29 # 3)]] = mk2 1 [[x]].
Proof.
  split; [vm_compute; reflexivity|].
  apply (@error_result_is_one_by_one
           (mk (Some (Matrix (mk2 2 [[Fin 2; Fin 1]; [Fin 1; Fin 1]])))
               (Some (mk2 2 [[1; 2]; [3; 5]; [1; 1]]%Z)) 2) 0 2).
  vm_compute; reflexivity.
Defined.

(* ================================================================== *)
(** ** Further properties of [error]: segments outside the signal *)

(** A slice that starts at or after the end of the sequence is empty. *)
Lemma slice_past_end {A} (l : list A) (start stop : Z) :
  (Z.of_nat (length l) <= start)%Z -> slice l start stop = [].
Proof.
  intros H. unfold slice, slice_bound.
  destruct (Z.ltb_spec start 0) as [Hs | Hs]; [lia|].
  rewrite (Z.min_r start) by lia.
  replace (Z.to_nat _) with 0%nat; [reflexivity|].
  destruct (Z.ltb_spec stop 0); lia.
Qed.

Lemma mean0_empty (d : nat) : mean0 (mk2 d []) = repeat NaN d.
Proof.
  unfold mean0. cbn [ncols rows]. now apply map_seq_const.
Qed.

Lemma sum_from_nan (l : list float) : fold_left add l NaN = NaN.
Proof. induction l as [|x l IH]; simpl; [reflexivity | exact IH]. Qed.

Lemma sum_nans (k : nat) : sum (repeat NaN (S k)) = NaN.
Proof. unfold sum. simpl. apply sum_from_nan. Qed.

(** A product with a row of [nan] is [nan] as soon as one term is summed. *)
Lemma dot_nan_row (d : nat) (v : list float) :
  (1 <= d)%nat -> length v = d -> dot (repeat NaN d) v = NaN.
Proof.
  intros Hd Hv. unfold dot.
  rewrite map_const_repeat with (v := NaN).
  - rewrite length_combine, repeat_length, Hv, Nat.min_id.
    destruct d as [|k]; [lia | apply sum_nans].
  - intros (a, b) Hab. apply in_combine_l, repeat_spec in Hab. now subst a.
Qed.

Lemma matmul_nan_row (d : nat) (b : array2 float) :
  (1 <= d)%nat -> nrows b = d ->
  matmul (mk2 d [repeat NaN d]) b = Ok (mk2 (ncols b) [repeat NaN (ncols b)]).
Proof.
  intros Hd Hb. unfold matmul. cbn [ncols rows map].
  rewrite Hb, Nat.eqb_refl. cbn [negb]. do 3 f_equal.
  apply map_seq_const. intros j _.
  apply dot_nan_row; [exact Hd | now rewrite column_length].
Qed.

(** X12. [error] does not check the segment against the signal: on an
    instance holding an invertible covariance of the size of the mean
    vector, a segment that starts at or after the last row raises nothing
    (the slice is empty, its mean is [nan]) and the query returns [nan]. *)
Theorem segment_past_the_end_gives_nan
        (self : t) (r : array2 Z) (c : ndarray) (ic : array2 float)
        (start stop : Z) :
  ranks self = Some r ->
  cov self = Some c ->
  inv c = Ok ic ->
  nrows ic = ncols r ->
  ncols ic = ncols r ->
  (1 <= ncols r)%nat ->
  (Z.of_nat (nrows r) <= start)%Z ->
  (min_size self <= stop - start)%Z ->
  error start stop self = (Ok (mk2 1 [[NaN]]), self).
Proof.
  intros Hr Hc Hinv Hrows Hcols Hd Hstart Hlen.
  unfold error, bind, get, raise, lift, ret.
  apply Z.ltb_ge in Hlen. rewrite Hlen, Hr, Hc, Hinv.
  unfold slice_rows. rewrite (slice_past_end _ stop Hstart), mean0_empty.
  set (d := ncols r) in *.
  assert (Hlhs : amap (mul (of_Z (- (stop - start))))
                      (transpose zero (reshape_column (repeat NaN d)))
                 = mk2 d [repeat NaN d]).
  { unfold amap, transpose, reshape_column, nrows, column.
    cbn [ncols rows seq map].
    rewrite length_map, repeat_length, !map_map. cbn [nth].
    now rewrite map_repeat. }
  rewrite Hlhs, (matmul_nan_row ic Hd Hrows), Hcols.
  rewrite (matmul_nan_row (reshape_column (repeat NaN d)) Hd)
    by (unfold reshape_column, nrows; cbn [rows];
        now rewrite length_map, repeat_length).
  reflexivity.
Qed.

Lemma segment_past_the_end_gives_nan_witness :
  let self := mk (Some (Matrix (mk2 2 [[Fin 2; Fin 1]; [Fin 1; Fin 1]])))
                 (Some (mk2 2 [[1; 2]; [3; 5]; [1; 1]]%Z)) 2 in
  let r := mk2 2 [[1; 2]; [3; 5]; [1; 1]]%Z in
  let c := Matrix (mk2 2 [[Fin 2; Fin 1]; [Fin 1; Fin 1]]) in
  let ic := mk2 2 [[Fin 1; Fin (-1)]; [Fin (-1); Fin 2]] in
  ranks self = Some r
  /\ cov self = Some c
  /\ inv c = Ok ic
  /\ nrows ic = ncols r
  /\ ncols ic = ncols r
  /\ (1 <= ncols r)%nat
  /\ (Z.of_nat (nrows r) <= 3)%Z
  /\ (min_size self <= 5 - 3)%Z
  /\ error 3 5 self = (Ok (mk2 1 [[NaN]]), self).
Proof.
  intros self r c ic.
  split; [reflexivity|]. split; [reflexivity|].
  split; [vm_compute; reflexivity|].
  split; [reflexivity|]. split; [reflexivity|].
  split; [simpl; lia|]. split; [simpl; lia|]. split; [simpl; lia|].
  apply (@segment_past_the_end_gives_nan self r c ic 3 5);
    try reflexivity; try (vm_compute; reflexivity); simpl; lia.
Defined.

(** X13. On a signal with a single observation the stored covariance is a
    zero-dimensional array (the 1 x 1 result of [np.cov] is squeezed), and
    every query on a segment of at least two points raises [LinAlgError]. *)
Theorem single_observation_covariance_is_scalar (sig : signal) (start stop : Z) :
  nrows (as_2d sig) = 1%nat ->
  (2 <= stop - start)%Z ->
  (exists x, cov (fitted sig) = Some (Scalar x))
  /\ error start stop (fitted sig) = (Err LinAlgError, fitted sig).
Proof.
  intros Hn Hlen.
  pose proof (fitted_cov sig) as Hc. cbv zeta in Hc. rewrite Hn in Hc.
  split; [eexists; exact Hc|].
  eapply error_inv_fails; [exact Hlen | reflexivity | exact Hc | reflexivity].
Qed.

Lemma single_observation_covariance_is_scalar_witness :
  nrows (as_2d (Sig2 (mk2 3 [[4; 5; 6]]))) = 1%nat
  /\ (2 <= 2 - 0)%Z
  /\ (exists x, cov (fitted (Sig2 (mk2 3 [[4; 5; 6]]))) = Some (Scalar x))
  /\ error 0 2 (fitted (Sig2 (mk2 3 [[4; 5; 6]])))
     = (Err LinAlgError, fitted (Sig2 (mk2 3 [[4; 5; 6]]))).
Proof.
  split; [reflexivity|]. split; [lia|].
  apply (single_observation_covariance_is_scalar (Sig2 (mk2 3 [[4; 5; 6]])) 0 2);
    [reflexivity | lia].
Defined.
